(** * tree-sitter-tui: the Swift binding header [tui.h]

    The only artifact is
    [editor/tree-sitter-tui/bindings/swift/TreeSitterTui/tui.h], sixteen
    lines of C: an include guard, the forward declaration of
    [struct TSLanguage], and the prototype of [tree_sitter_tui], wrapped in
    an [extern "C"] block when the translation unit is C++.

    The development embeds the header as it is written (its lines, verbatim),
    and gives it the meaning a C translation unit gives it:
    - [Lexer]: preprocessing tokens of one source line;
    - [Cpp]: the conditional-inclusion part of translation phase 4
      ([#ifndef], [#ifdef], [#define], [#endif]) over a set of defined
      macro names;
    - [Decl]: the external declarations the surviving tokens spell;
    - [Access]: typedef resolution, qualifiers, completeness and members
      of the declared types;
    - [Linkage], [Scope], [Calls]: language linkage, declaration before
      use, and the constraints on calls and assignment;
    - [Caller]: the expressions a caller can build on the returned
      pointer and whether C lets them be assigned to.

    Macro replacement inside text lines is not modelled: the lines that
    survive conditional inclusion are kept as the header spells them. *)

From stdpp Require Import gmap strings list.
From Stdlib Require Import Ascii String.

Local Open Scope string_scope.
Local Open Scope list_scope.

(** ** The source *)

Module Source.

(** The double-quote character, used by line 7. *)
Definition dquote : ascii := ascii_of_nat 34.

Definition TREE_SITTER_TUI_H_ : string := "TREE_SITTER_TUI_H_".
Definition cplusplus : string := "__cplusplus".

(** [tui.h], one string per line, in file order (the last line has no
    terminating newline in the file). *)
Definition tui_h : list string :=
  [ "#ifndef TREE_SITTER_TUI_H_"
  ; "#define TREE_SITTER_TUI_H_"
  ; EmptyString
  ; "typedef struct TSLanguage TSLanguage;"
  ; EmptyString
  ; "#ifdef __cplusplus"
  ; "extern " +:+ String dquote ("C" +:+ String dquote " {")
  ; "#endif"
  ; EmptyString
  ; "const TSLanguage *tree_sitter_tui(void);"
  ; EmptyString
  ; "#ifdef __cplusplus"
  ; "}"
  ; "#endif"
  ; EmptyString
  ; "#endif // TREE_SITTER_TUI_H_" ].

End Source.

(** ** Preprocessing tokens *)

Module Lexer.

Inductive token : Type :=
  | TIdent (name : string)
  | TPunct (c : ascii)
  | TStrLit (body : string).

Definition in_range (lo hi : nat) (c : ascii) : bool :=
  let n := nat_of_ascii c in Nat.leb lo n && Nat.leb n hi.

(** Letters, digits and the underscore. *)
Definition is_ident_char (c : ascii) : bool :=
  in_range 97 122 c || in_range 65 90 c || in_range 48 57 c
  || Nat.eqb (nat_of_ascii c) 95.

(** Space, horizontal tab, carriage return, line feed. *)
Definition is_space (c : ascii) : bool :=
  let n := nat_of_ascii c in
  Nat.eqb n 32 || Nat.eqb n 9 || Nat.eqb n 13 || Nat.eqb n 10.

Definition is_slash (c : ascii) : bool := Nat.eqb (nat_of_ascii c) 47.
Definition is_dquote (c : ascii) : bool := Nat.eqb (nat_of_ascii c) 34.

Definition snoc (s : string) (c : ascii) : string :=
  s +:+ String c EmptyString.

(** What the scanner is in the middle of. *)
Inductive mode : Type :=
  | Idle
  | InIdent (acc : string)
  | InString (acc : string).

Definition flush (m : mode) : list token :=
  match m with
  | Idle => []
  | InIdent acc => [TIdent acc]
  | InString acc => [TStrLit acc]
  end.

(** One line to its tokens. A [//] comment ends the line; a string literal
    runs to the next double quote. *)
Fixpoint scan (m : mode) (s : string) : list token :=
  match s with
  | EmptyString => flush m
  | String c rest =>
      match m with
      | InString acc =>
          if is_dquote c then TStrLit acc :: scan Idle rest
          else scan (InString (snoc acc c)) rest
      | _ =>
          if is_ident_char c then
            match m with
            | InIdent acc => scan (InIdent (snoc acc c)) rest
            | _ => scan (InIdent (String c EmptyString)) rest
            end
          else if is_space c then flush m ++ scan Idle rest
          else if is_dquote c then flush m ++ scan (InString EmptyString) rest
          else if is_slash c then
            match rest with
            | String c' _ =>
                if is_slash c' then flush m
                else flush m ++ TPunct c :: scan Idle rest
            | EmptyString => flush m ++ [TPunct c]
            end
          else flush m ++ TPunct c :: scan Idle rest
      end
  end.

Definition tokens (line : string) : list token := scan Idle line.

End Lexer.

(** ** Conditional inclusion *)

Module Cpp.
Import Lexer.

(** A source line as the preprocessor sees it. *)
Inductive line : Type :=
  | Ifndef (m : string)
  | Ifdef (m : string)
  | Define (m : string)
  | Endif
  | Text (toks : list token)
  | Unsupported (toks : list token).

Definition is_hash (t : token) : bool :=
  match t with
  | TPunct c => Nat.eqb (nat_of_ascii c) 35
  | _ => false
  end.

(** A line whose first token is [#] is a directive; the header uses four
    of them, each with the operands shown; every other directive is
    [Unsupported]. *)
Definition classify (s : string) : line :=
  match tokens s with
  | [] => Text []
  | t :: ts =>
      if is_hash t then
        match ts with
        | [TIdent d; TIdent m] =>
            if String.eqb d "ifndef" then Ifndef m
            else if String.eqb d "ifdef" then Ifdef m
            else if String.eqb d "define" then Define m
            else Unsupported (t :: ts)
        | [TIdent d] =>
            if String.eqb d "endif" then Endif else Unsupported (t :: ts)
        | _ => Unsupported (t :: ts)
        end
      else Text (t :: ts)
  end.

(** The preprocessor's state inside one file: the macros defined so far,
    the open conditional groups (innermost first, [true] when the group's
    condition held) and the tokens passed on to the compiler. *)
Record pstate : Type := mkPState
  { macros : gset string
  ; conds : list bool
  ; emitted : list token }.

Definition active (st : pstate) : bool := forallb id (conds st).

Definition push_cond (b : bool) (st : pstate) : pstate :=
  mkPState (macros st) (b :: conds st) (emitted st).

(** One line. [None] is a diagnostic: an [#endif] with no open group, or
    a directive outside the four above in a group that is not skipped. *)
Definition step (l : line) (st : pstate) : option pstate :=
  match l with
  | Ifndef m => Some (push_cond (negb (bool_decide (m ∈ macros st))) st)
  | Ifdef m => Some (push_cond (bool_decide (m ∈ macros st)) st)
  | Define m =>
      if active st
      then Some (mkPState ({[ m ]} ∪ macros st) (conds st) (emitted st))
      else Some st
  | Endif =>
      match conds st with
      | [] => None
      | _ :: cs => Some (mkPState (macros st) cs (emitted st))
      end
  | Text toks =>
      if active st
      then Some (mkPState (macros st) (conds st) (emitted st ++ toks))
      else Some st
  | Unsupported _ => if active st then None else Some st
  end.

Fixpoint run (ls : list line) (st : pstate) : option pstate :=
  match ls with
  | [] => Some st
  | l :: ls' =>
      match step l st with
      | Some st' => run ls' st'
      | None => None
      end
  end.

(** The unit under translation: the macros defined and the tokens emitted
    so far. *)
Definition unit_state : Type := gset string * list token.

(** [#include] of a file: its lines are processed with no group open, and
    every group the file opens must be closed by its end. *)
Definition include (file : list string) (u : unit_state) : option unit_state :=
  match run (map classify file) (mkPState u.1 [] u.2) with
  | Some st =>
      match conds st with
      | [] => Some (macros st, emitted st)
      | _ :: _ => None
      end
  | None => None
  end.

(** [n] consecutive [#include "tui.h"] lines. *)
Fixpoint include_times (n : nat) (u : unit_state) : option unit_state :=
  match n with
  | O => Some u
  | S n' =>
      match include Source.tui_h u with
      | Some u' => include_times n' u'
      | None => None
      end
  end.

End Cpp.

(** ** External declarations *)

Module Decl.
Import Lexer.

(** The tokens the declarations of a header are made of. *)
Inductive sym : Type :=
  | KwTypedef | KwStruct | KwConst | KwVoid | KwExtern
  | LBrace | RBrace | LParen | RParen | Semi | Star | Comma | Assign
  | Id (name : string)
  | Str (body : string)
  | Other (c : ascii).

Definition sym_of_ident (s : string) : sym :=
  if String.eqb s "typedef" then KwTypedef
  else if String.eqb s "struct" then KwStruct
  else if String.eqb s "const" then KwConst
  else if String.eqb s "void" then KwVoid
  else if String.eqb s "extern" then KwExtern
  else Id s.

Definition sym_of_punct (c : ascii) : sym :=
  let n := nat_of_ascii c in
  if Nat.eqb n 123 then LBrace
  else if Nat.eqb n 125 then RBrace
  else if Nat.eqb n 40 then LParen
  else if Nat.eqb n 41 then RParen
  else if Nat.eqb n 59 then Semi
  else if Nat.eqb n 42 then Star
  else if Nat.eqb n 44 then Comma
  else if Nat.eqb n 61 then Assign
  else Other c.

Definition sym_of (t : token) : sym :=
  match t with
  | TIdent s => sym_of_ident s
  | TPunct c => sym_of_punct c
  | TStrLit s => Str s
  end.

Inductive ctype : Type :=
  | CVoid
  | CNamed (name : string)
  | CStruct (tag : string)
  | CConst (t : ctype)
  | CPtr (t : ctype).

(** An external declaration. [DFunProto] carries [Some ps] for a
    prototype ([Some []] is the parameter list [(void)]) and [None] for
    an empty pair of parentheses. *)
Inductive decl : Type :=
  | DTypedef (t : ctype) (alias : string)
  | DStructFwd (tag : string)
  | DStructDef (tag : string) (fields : list (string * ctype))
  | DFunProto (ret : ctype) (name : string) (params : option (list ctype))
  | DFunDef (ret : ctype) (name : string) (params : option (list ctype))
  | DObject (t : ctype) (name : string)
  | DLinkageOpen (lang : string)
  | DLinkageClose.

Definition parse_unqual (ts : list sym) : option (ctype * list sym) :=
  match ts with
  | KwStruct :: Id tag :: r => Some (CStruct tag, r)
  | KwVoid :: r => Some (CVoid, r)
  | Id n :: r => Some (CNamed n, r)
  | _ => None
  end.

(** Declaration specifiers: a type with [const] before or after it. *)
Definition parse_base (ts : list sym) : option (ctype * list sym) :=
  match ts with
  | KwConst :: r =>
      match parse_unqual r with
      | Some (t, r') => Some (CConst t, r')
      | None => None
      end
  | _ =>
      match parse_unqual ts with
      | Some (t, KwConst :: r') => Some (CConst t, r')
      | other => other
      end
  end.

(** The pointer part of a declarator: [*] and [* const], left to right. *)
Fixpoint parse_ptrs (t : ctype) (ts : list sym) : ctype * list sym :=
  match ts with
  | Star :: r =>
      match r with
      | KwConst :: r' => parse_ptrs (CConst (CPtr t)) r'
      | _ => parse_ptrs (CPtr t) r
      end
  | _ => (t, ts)
  end.

Definition parse_type (ts : list sym) : option (ctype * list sym) :=
  match parse_base ts with
  | Some (t, r) => Some (parse_ptrs t r)
  | None => None
  end.

(** A non-empty parameter list up to and including its [)]; parameter
    names are optional. *)
Fixpoint parse_param_list (fuel : nat) (ts : list sym)
  : option (list ctype * list sym) :=
  match fuel with
  | O => None
  | S fuel' =>
      match parse_type ts with
      | Some (t, r) =>
          let r1 := match r with Id _ :: r' => r' | _ => r end in
          match r1 with
          | RParen :: r2 => Some ([t], r2)
          | Comma :: r2 =>
              match parse_param_list fuel' r2 with
              | Some (ps, r3) => Some (t :: ps, r3)
              | None => None
              end
          | _ => None
          end
      | None => None
      end
  end.

(** What follows the [(] of a function declarator. *)
Definition parse_params (ts : list sym)
  : option (option (list ctype) * list sym) :=
  match ts with
  | RParen :: r => Some (None, r)
  | KwVoid :: RParen :: r => Some (Some [], r)
  | _ =>
      match parse_param_list (List.length ts) ts with
      | Some (ps, r) => Some (Some ps, r)
      | None => None
      end
  end.

(** Skip a brace-balanced block whose [{] has been read. *)
Fixpoint skip_block (depth : nat) (ts : list sym) : option (list sym) :=
  match ts with
  | [] => None
  | LBrace :: r => skip_block (S depth) r
  | RBrace :: r =>
      match depth with
      | O => Some r
      | S d => skip_block d r
      end
  | _ :: r => skip_block depth r
  end.

(** Skip an initializer up to and including its [;]. *)
Fixpoint skip_init (depth : nat) (ts : list sym) : option (list sym) :=
  match ts with
  | [] => None
  | LBrace :: r => skip_init (S depth) r
  | RBrace :: r => skip_init (pred depth) r
  | Semi :: r =>
      match depth with
      | O => Some r
      | S _ => skip_init depth r
      end
  | _ :: r => skip_init depth r
  end.

(** Member declarations [type name;] up to and including the [}]. *)
Fixpoint parse_fields (fuel : nat) (ts : list sym)
  : option (list (string * ctype) * list sym) :=
  match fuel with
  | O => None
  | S fuel' =>
      match ts with
      | RBrace :: r => Some ([], r)
      | _ =>
          match parse_type ts with
          | Some (t, Id f :: Semi :: r) =>
              match parse_fields fuel' r with
              | Some (fs, r') => Some ((f, t) :: fs, r')
              | None => None
              end
          | _ => None
          end
      end
  end.

(** One external declaration and the tokens after it. *)
Definition parse_external (ts : list sym) : option (decl * list sym) :=
  match ts with
  | RBrace :: r => Some (DLinkageClose, r)
  | KwExtern :: Str lang :: LBrace :: r => Some (DLinkageOpen lang, r)
  | KwTypedef :: r =>
      match parse_type r with
      | Some (t, Id alias :: Semi :: r') => Some (DTypedef t alias, r')
      | _ => None
      end
  | KwStruct :: Id tag :: Semi :: r => Some (DStructFwd tag, r)
  | KwStruct :: Id tag :: LBrace :: r =>
      match parse_fields (List.length r) r with
      | Some (fs, Semi :: r') => Some (DStructDef tag fs, r')
      | _ => None
      end
  | _ =>
      match parse_type ts with
      | Some (t, Id name :: LParen :: r) =>
          match parse_params r with
          | Some (ps, Semi :: r') => Some (DFunProto t name ps, r')
          | Some (ps, LBrace :: r') =>
              match skip_block 0 r' with
              | Some r'' => Some (DFunDef t name ps, r'')
              | None => None
              end
          | _ => None
          end
      | Some (t, Id name :: Semi :: r) => Some (DObject t name, r)
      | Some (t, Id name :: Assign :: r) =>
          match skip_init 0 r with
          | Some r' => Some (DObject t name, r')
          | None => None
          end
      | _ => None
      end
  end.

Fixpoint parse_unit (fuel : nat) (ts : list sym) : option (list decl) :=
  match ts with
  | [] => Some []
  | _ :: _ =>
      match fuel with
      | O => None
      | S fuel' =>
          match parse_external ts with
          | Some (d, r) =>
              match parse_unit fuel' r with
              | Some ds => Some (d :: ds)
              | None => None
              end
          | None => None
          end
      end
  end.

(** The declarations a token sequence spells; [None] when some token is
    outside the declaration forms above. *)
Definition declarations (toks : list token) : option (list decl) :=
  parse_unit (List.length toks) (map sym_of toks).

(** *** What a list of declarations declares *)

Definition fun_sig : Type := (string * ctype * option (list ctype))%type.

(** Every function named, declared or defined. *)
Definition functions (ds : list decl) : list fun_sig :=
  flat_map (fun d =>
    match d with
    | DFunProto r n ps | DFunDef r n ps => [(n, r, ps)]
    | _ => []
    end) ds.

(** The functions given a body. *)
Definition function_bodies (ds : list decl) : list string :=
  flat_map (fun d =>
    match d with DFunDef _ n _ => [n] | _ => [] end) ds.

(** The structures given a member list. *)
Definition struct_definitions (ds : list decl)
  : list (string * list (string * ctype)) :=
  flat_map (fun d =>
    match d with DStructDef tag fs => [(tag, fs)] | _ => [] end) ds.

(** The objects (variables, tables) declared. *)
Definition objects (ds : list decl) : list string :=
  flat_map (fun d =>
    match d with DObject _ n => [n] | _ => [] end) ds.

(** The typedef names introduced, with what they abbreviate. *)
Definition typedefs (ds : list decl) : list (string * ctype) :=
  flat_map (fun d =>
    match d with DTypedef t a => [(a, t)] | _ => [] end) ds.

End Decl.

(** ** The declared types *)

Module Access.
Import Decl.

Fixpoint assoc {A : Type} (k : string) (l : list (string * A)) : option A :=
  match l with
  | [] => None
  | (k', v) :: l' => if String.eqb k k' then Some v else assoc k l'
  end.

(** Replace typedef names by what they abbreviate. [tds] holds types
    that are already resolved. *)
Fixpoint resolve (tds : list (string * ctype)) (t : ctype) : ctype :=
  match t with
  | CNamed n =>
      match assoc n tds with
      | Some t' => t'
      | None => t
      end
  | CConst t' => CConst (resolve tds t')
  | CPtr t' => CPtr (resolve tds t')
  | _ => t
  end.

(** A typedef may only mention the typedefs before it, so the table is
    built in declaration order. *)
Definition typedef_env (ds : list decl) : list (string * ctype) :=
  fold_left (fun tds p => (p.1, resolve tds p.2) :: tds) (typedefs ds) [].

Definition return_type (ds : list decl) (fn : string) : option ctype :=
  match assoc fn (map (fun s : fun_sig => (s.1.1, s.1.2)) (functions ds)) with
  | Some t => Some (resolve (typedef_env ds) t)
  | None => None
  end.

Definition is_const (t : ctype) : bool :=
  match t with
  | CConst _ => true
  | _ => false
  end.

Fixpoint unqual (t : ctype) : ctype :=
  match t with
  | CConst t' => unqual t'
  | _ => t
  end.

(** Complete object types: [void] and a structure whose members are not
    known are incomplete. Names that are not typedefs are the arithmetic
    types. *)
Definition complete (ds : list decl) (t : ctype) : bool :=
  match unqual t with
  | CVoid => false
  | CStruct tag =>
      match assoc tag (struct_definitions ds) with
      | Some _ => true
      | None => false
      end
  | _ => true
  end.

Definition pointee (t : ctype) : option ctype :=
  match unqual t with
  | CPtr t' => Some t'
  | _ => None
  end.

(** The type of member [f] of an object of type [t]; a member of a
    const-qualified structure is const-qualified. *)
Definition member (ds : list decl) (t : ctype) (f : string) : option ctype :=
  match unqual t with
  | CStruct tag =>
      match assoc tag (struct_definitions ds) with
      | Some fs =>
          match assoc f fs with
          | Some ft =>
              let ft' := resolve (typedef_env ds) ft in
              Some (if is_const t then CConst ft' else ft')
          | None => None
          end
      | None => None
      end
  | _ => None
  end.

(** Structure definitions a caller may have in scope besides the header. *)
Definition struct_decls (defs : list (string * list (string * ctype)))
  : list decl :=
  map (fun d => DStructDef d.1 d.2) defs.

End Access.

(** ** Language linkage *)

Module Linkage.
Import Decl.

(** The linkage blocks in the order they are opened. *)
Definition linkage_blocks (ds : list decl) : list string :=
  flat_map (fun d =>
    match d with DLinkageOpen l => [l] | _ => [] end) ds.

(** Each function with the language of the innermost [extern] block
    around its declaration ([None]: declared at file scope, outside any
    block). The whole result is [None] when a [}] has no block to close
    or a block is still open at the end. *)
Fixpoint linkages (open : list string) (ds : list decl)
  : option (list (string * option string)) :=
  match ds with
  | [] =>
      match open with
      | [] => Some []
      | _ :: _ => None
      end
  | d :: ds' =>
      match d with
      | DLinkageOpen l => linkages (l :: open) ds'
      | DLinkageClose =>
          match open with
          | [] => None
          | _ :: open' => linkages open' ds'
          end
      | DFunProto _ n _ | DFunDef _ n _ =>
          match linkages open ds' with
          | Some r => Some ((n, head open) :: r)
          | None => None
          end
      | _ => linkages open ds'
      end
  end.

(** The declarations with the linkage braces taken out. *)
Definition without_linkage (ds : list decl) : list decl :=
  List.filter (fun d =>
    match d with
    | DLinkageOpen _ | DLinkageClose => false
    | _ => true
    end) ds.

End Linkage.

(** ** Declaration before use *)

Module Scope.
Import Decl.

(** The typedef names a type mentions. *)
Fixpoint type_names (t : ctype) : list string :=
  match t with
  | CNamed n => [n]
  | CConst t' | CPtr t' => type_names t'
  | _ => []
  end.

Definition known_type (known : list string) (t : ctype) : bool :=
  forallb (fun n => existsb (String.eqb n) known) (type_names t).

Definition known_params (known : list string) (ps : option (list ctype))
  : bool :=
  match ps with
  | Some l => forallb (known_type known) l
  | None => true
  end.

(** Every type name a declaration uses is in [known] or was introduced
    by a typedef earlier in [ds]. Structure tags need no earlier
    declaration. *)
Fixpoint well_scoped (known : list string) (ds : list decl) : bool :=
  match ds with
  | [] => true
  | d :: ds' =>
      match d with
      | DTypedef t a => known_type known t && well_scoped (a :: known) ds'
      | DStructDef _ fs =>
          forallb (fun f => known_type known f.2) fs && well_scoped known ds'
      | DFunProto r _ ps | DFunDef r _ ps =>
          known_type known r && known_params known ps
          && well_scoped known ds'
      | DObject t _ => known_type known t && well_scoped known ds'
      | _ => well_scoped known ds'
      end
  end.

End Scope.

(** ** Calling the function and storing its result *)

Module Calls.
Import Decl Access.

Fixpoint ctype_eqb (a b : ctype) : bool :=
  match a, b with
  | CVoid, CVoid => true
  | CNamed x, CNamed y => String.eqb x y
  | CStruct x, CStruct y => String.eqb x y
  | CConst x, CConst y => ctype_eqb x y
  | CPtr x, CPtr y => ctype_eqb x y
  | _, _ => false
  end.

Definition is_void (t : ctype) : bool :=
  match t with
  | CVoid => true
  | _ => false
  end.

Definition is_bool (t : ctype) : bool :=
  match t with
  | CNamed n => String.eqb n "_Bool" || String.eqb n "bool"
  | _ => false
  end.

Definition is_arith (t : ctype) : bool :=
  match t with
  | CNamed _ => true
  | _ => false
  end.

(** Simple assignment, initialisation and argument passing of a value of
    type [src] to an object of type [dst], both with typedefs resolved.
    Pointer to pointer: the pointed-to types agree up to qualifiers, or
    one of them is [void], and the left one has every qualifier of the
    right one. A pointer also converts to a boolean; arithmetic types
    convert to each other; a structure is assigned from the same
    structure. *)
Definition assign_ok (dst src : ctype) : bool :=
  match pointee dst, pointee src with
  | Some d, Some s =>
      (ctype_eqb (unqual d) (unqual s)
       || is_void (unqual d) || is_void (unqual s))
      && implb (is_const s) (is_const d)
  | None, Some _ => is_bool (unqual dst)
  | Some _, None => false
  | None, None =>
      match unqual dst, unqual src with
      | CNamed _, CNamed _ => true
      | CStruct x, CStruct y => String.eqb x y
      | _, _ => false
      end
  end.

Definition prototype (ds : list decl) (fn : string)
  : option (option (list ctype)) :=
  assoc fn (map (fun s : fun_sig => (s.1.1, s.2)) (functions ds)).

(** A call [fn(args)], [args] being the argument types. With a prototype
    the number of arguments is the number of parameters and each argument
    can be assigned to its parameter; a declarator with empty
    parentheses takes any arguments; an undeclared function cannot be
    called. *)
Definition call_ok (ds : list decl) (fn : string) (args : list ctype)
  : bool :=
  match prototype ds fn with
  | Some (Some ps) =>
      Nat.eqb (List.length args) (List.length ps)
      && forallb
           (fun pa => assign_ok (unqual (resolve (typedef_env ds) pa.1)) pa.2)
           (combine ps args)
  | Some None => true
  | None => false
  end.

End Calls.

(** ** What a caller can do with the returned pointer *)

Module Caller.
Import Decl Access Calls.

(** Scalar types: pointers and the arithmetic types. *)
Definition scalar (t : ctype) : bool :=
  match unqual t with
  | CPtr _ | CNamed _ => true
  | _ => false
  end.

(** Expressions a caller can build on the result of a call: [fn()], an
    object declared with type [t] and given the value of [e] by
    initialisation or assignment, the cast [(t) e], [*e], [e[i]], [e.f],
    [e->f]. *)
Inductive path : Type :=
  | Call (fn : string)
  | Var (t : ctype) (e : path)
  | Cast (t : ctype) (e : path)
  | Deref (e : path)
  | Index (e : path) (i : nat)
  | Member (e : path) (f : string)
  | Arrow (e : path) (f : string).

(** The type of an expression and whether it is an lvalue; [None] when
    the expression violates a constraint. An object has a complete type
    and its initialiser obeys the constraints of assignment; a cast
    converts a scalar to a scalar type and is not an lvalue. *)
Fixpoint type_of (ds : list decl) (e : path) : option (ctype * bool) :=
  match e with
  | Call fn =>
      match return_type ds fn with
      | Some t => Some (t, false)
      | None => None
      end
  | Var t e' =>
      match type_of ds e' with
      | Some (t0, _) =>
          let t' := resolve (typedef_env ds) t in
          if assign_ok t' t0 && complete ds t' then Some (t', true) else None
      | None => None
      end
  | Cast t e' =>
      match type_of ds e' with
      | Some (t0, _) =>
          let t' := resolve (typedef_env ds) t in
          if scalar t0 && scalar t' then Some (t', false) else None
      | None => None
      end
  | Deref e' =>
      match type_of ds e' with
      | Some (t, _) =>
          match pointee t with
          | Some t' => Some (t', true)
          | None => None
          end
      | None => None
      end
  | Index e' _ =>
      match type_of ds e' with
      | Some (t, _) =>
          match pointee t with
          | Some t' => if complete ds t' then Some (t', true) else None
          | None => None
          end
      | None => None
      end
  | Member e' f =>
      match type_of ds e' with
      | Some (t, lv) =>
          match member ds t f with
          | Some ft => Some (ft, lv)
          | None => None
          end
      | None => None
      end
  | Arrow e' f =>
      match type_of ds e' with
      | Some (t, _) =>
          match pointee t with
          | Some t' =>
              match member ds t' f with
              | Some ft => Some (ft, true)
              | None => None
              end
          | None => None
          end
      | None => None
      end
  end.

(** A modifiable lvalue: an lvalue of complete type that is not
    const-qualified. Assignment, increment and decrement require one as
    their operand. *)
Definition assignable (ds : list decl) (e : path) : bool :=
  match type_of ds e with
  | Some (t, true) => negb (is_const t) && complete ds t
  | _ => false
  end.

(** Expressions whose value is the pointer a call returned, as returned
    or after it went through objects by assignment, without a cast. *)
Fixpoint is_handle (e : path) : bool :=
  match e with
  | Call _ => true
  | Var _ e' => is_handle e'
  | _ => false
  end.

(** The lvalues that designate the object such a pointer points to, or a
    member of it: [*h], [h[i]], [h->f], and [.f] on any of them. *)
Fixpoint within_object (e : path) : bool :=
  match e with
  | Deref h | Index h _ | Arrow h _ => is_handle h
  | Member e' _ => within_object e'
  | _ => false
  end.

End Caller.

Import Source Lexer Cpp Decl Access Linkage Scope Calls Caller.

(** ** The tokens and declarations of the header *)

Definition typedef_toks : list token :=
  [TIdent "typedef"; TIdent "struct"; TIdent "TSLanguage";
   TIdent "TSLanguage"; TPunct ";"].

Definition proto_toks : list token :=
  [TIdent "const"; TIdent "TSLanguage"; TPunct "*";
   TIdent "tree_sitter_tui"; TPunct "("; TIdent "void"; TPunct ")";
   TPunct ";"].

Definition open_toks : list token :=
  [TIdent "extern"; TStrLit "C"; TPunct "{"].

Definition close_toks : list token := [TPunct "}"].

(** What one inclusion passes on, in a C ([cxx = false]) or a C++
    ([cxx = true]) translation unit. *)
Definition body (cxx : bool) : list token :=
  typedef_toks ++ (if cxx then open_toks else [])
  ++ proto_toks ++ (if cxx then close_toks else []).

Definition TSLanguage_struct : ctype := CStruct "TSLanguage".

Definition typedef_decl : decl := DTypedef TSLanguage_struct "TSLanguage".

Definition tree_sitter_tui_sig : fun_sig :=
  ("tree_sitter_tui", CPtr (CConst (CNamed "TSLanguage")), Some []).

Definition proto_decl : decl :=
  DFunProto (CPtr (CConst (CNamed "TSLanguage"))) "tree_sitter_tui" (Some []).

Definition header_decls (cxx : bool) : list decl :=
  if cxx then [typedef_decl; DLinkageOpen "C"; proto_decl; DLinkageClose]
  else [typedef_decl; proto_decl].

(** The declarations of a translation unit that starts from the macros
    [ms] and includes the header [n] times. *)
Definition translate (n : nat) (ms : gset string) : option (list decl) :=
  match include_times n (ms, []) with
  | Some (_, toks) => declarations toks
  | None => None
  end.

Definition handle_type : ctype := CPtr (CConst TSLanguage_struct).

(** * Properties *)

(** ** The header's lines and tokens *)

Lemma tui_h_lines :
  map classify tui_h =
  [ Ifndef TREE_SITTER_TUI_H_; Define TREE_SITTER_TUI_H_; Text [];
    Text typedef_toks; Text [];
    Ifdef cplusplus; Text open_toks; Endif; Text [];
    Text proto_toks; Text [];
    Ifdef cplusplus; Text close_toks; Endif; Text [];
    Endif ].
Proof. vm_compute. reflexivity. Qed.

(** ** One inclusion *)

Lemma cplusplus_after_define (ms : gset string) :
  bool_decide (cplusplus ∈ ({[ TREE_SITTER_TUI_H_ ]} ∪ ms : gset string))
  = bool_decide (cplusplus ∈ ms).
Proof.
  apply bool_decide_ext.
  rewrite elem_of_union, elem_of_singleton.
  split; [ intros [Heq | Hin]; [ discriminate Heq | exact Hin ] | now right ].
Qed.

Ltac pp_eval :=
  cbn [run step push_cond active conds macros emitted forallb id fst snd
       negb andb].

(** With the TREE_SITTER_TUI_H_ macro defined the whole file is skipped. *)
Lemma include_guarded (ms : gset string) (out : list token) :
  TREE_SITTER_TUI_H_ ∈ ms -> include tui_h (ms, out) = Some (ms, out).
Proof.
  intros Hg. unfold include. rewrite tui_h_lines.
  pp_eval. rewrite (bool_decide_eq_true_2 _ Hg).
  destruct (bool_decide (cplusplus ∈ ms)) eqn:Hc;
    repeat (pp_eval; rewrite ?Hc); reflexivity.
Qed.

(** Without it the macro gets defined and the declarations pass. *)
Lemma include_fresh (ms : gset string) (out : list token) :
  TREE_SITTER_TUI_H_ ∉ ms ->
  include tui_h (ms, out)
  = Some ({[ TREE_SITTER_TUI_H_ ]} ∪ ms,
          out ++ body (bool_decide (cplusplus ∈ ms))).
Proof.
  intros Hg. unfold include. rewrite tui_h_lines.
  pp_eval. rewrite (bool_decide_eq_false_2 _ Hg).
  destruct (bool_decide (cplusplus ∈ ms)) eqn:Hc;
    repeat (pp_eval; rewrite ?cplusplus_after_define, ?Hc);
    unfold body; rewrite ?app_nil_r, <- ?app_assoc; reflexivity.
Qed.

(** ** The declarations of the header *)

Lemma declarations_body (cxx : bool) :
  declarations (body cxx) = Some (header_decls cxx).
Proof. destruct cxx; vm_compute; reflexivity. Qed.

Lemma include_times_guarded (n : nat) (ms : gset string) (out : list token) :
  TREE_SITTER_TUI_H_ ∈ ms -> include_times n (ms, out) = Some (ms, out).
Proof.
  intros Hg. induction n as [| n IH]; cbn [include_times].
  - reflexivity.
  - rewrite (include_guarded ms out Hg). exact IH.
Qed.

Lemma guard_defined_after (ms : gset string) :
  TREE_SITTER_TUI_H_ ∈ ({[ TREE_SITTER_TUI_H_ ]} ∪ ms : gset string).
Proof. apply elem_of_union_l, elem_of_singleton. reflexivity. Qed.

Lemma include_times_succ (n : nat) (u : unit_state) :
  include_times (S n) u = include tui_h u.
Proof.
  destruct u as [ms out]. cbn [include_times].
  destruct (decide (TREE_SITTER_TUI_H_ ∈ ms)) as [Hg | Hg].
  - rewrite (include_guarded ms out Hg). now apply include_times_guarded.
  - rewrite (include_fresh ms out Hg).
    apply include_times_guarded, guard_defined_after.
Qed.

Lemma translate_fresh (n : nat) (ms : gset string) :
  TREE_SITTER_TUI_H_ ∉ ms ->
  translate (S n) ms = Some (header_decls (bool_decide (cplusplus ∈ ms))).
Proof.
  intros Hg. unfold translate.
  rewrite include_times_succ, (include_fresh ms [] Hg).
  apply declarations_body.
Qed.

Lemma translate_guarded (n : nat) (ms : gset string) :
  TREE_SITTER_TUI_H_ ∈ ms -> translate n ms = Some [].
Proof.
  intros Hg. unfold translate.
  rewrite (include_times_guarded n ms [] Hg). reflexivity.
Qed.

(** Units whose only function is [tree_sitter_tui] and whose only typedef
    is [TSLanguage]: the header's own, with or without structure
    definitions of the caller. *)
Section Handle.

Variable ds : list decl.
Hypothesis Hfun : functions ds = [tree_sitter_tui_sig].
Hypothesis Htd : typedefs ds = [("TSLanguage", TSLanguage_struct)].

Lemma return_type_handle (fn : string) :
  return_type ds fn
  = if String.eqb fn "tree_sitter_tui" then Some handle_type else None.
Proof.
  unfold return_type, typedef_env. rewrite Hfun, Htd. cbn.
  destruct (String.eqb fn "tree_sitter_tui"); reflexivity.
Qed.

Lemma member_of_const (t ft : ctype) (f : string) :
  member ds t f = Some ft -> is_const t = true -> is_const ft = true.
Proof.
  unfold member. intros Hm Hc. rewrite Hc in Hm.
  destruct (unqual t); try discriminate Hm.
  destruct (assoc tag (struct_definitions ds)) as [fs |]; [| discriminate Hm ].
  destruct (assoc f fs); [| discriminate Hm ].
  injection Hm as <-. reflexivity.
Qed.

(** Assignment never drops the qualifier of the pointed-to type. *)
Lemma assign_keeps_const (dst src d : ctype) :
  assign_ok dst src = true -> pointee dst = Some d ->
  (forall s, pointee src = Some s -> is_const s = true) ->
  is_const d = true.
Proof.
  unfold assign_ok. intros Hok Hd Hs. rewrite Hd in Hok.
  destruct (pointee src) as [s |]; [| discriminate Hok ].
  apply andb_prop in Hok as [_ Himp].
  rewrite (Hs s eq_refl) in Himp. exact Himp.
Qed.

(** Whatever objects the returned pointer went through, it points to a
    const-qualified type. *)
Lemma handle_pointee_const (h : path) (t d : ctype) (lv : bool) :
  is_handle h = true -> type_of ds h = Some (t, lv) ->
  pointee t = Some d -> is_const d = true.
Proof.
  revert t d lv.
  induction h as [fn | t0 h IH | t0 h IH | h IH | h IH i | h IH f | h IH f];
    intros t d lv Hh Ht Hp;
    try discriminate Hh.
  - cbn [type_of] in Ht. rewrite return_type_handle in Ht.
    destruct (String.eqb fn "tree_sitter_tui"); [| discriminate Ht ].
    injection Ht as <- _. cbn in Hp. injection Hp as <-. reflexivity.
  - cbn [is_handle] in Hh. cbn [type_of] in Ht.
    destruct (type_of ds h) as [[ts lvs] |]; [| discriminate Ht ].
    cbn zeta in Ht.
    destruct (assign_ok (resolve (typedef_env ds) t0) ts
              && complete ds (resolve (typedef_env ds) t0)) eqn:Hok;
      [| discriminate Ht ].
    injection Ht as <- _. apply andb_prop in Hok as [Hok _].
    apply (assign_keeps_const _ ts d Hok Hp).
    intros s Hs. exact (IH ts s lvs Hh eq_refl Hs).
Qed.

(** Every lvalue inside the pointed-to object is const-qualified. *)
Lemma within_object_const (e : path) (t : ctype) (lv : bool) :
  within_object e = true -> type_of ds e = Some (t, lv) -> is_const t = true.
Proof.
  revert t lv.
  induction e as [fn | t0 e IH | t0 e IH | e IH | e IH i | e IH f | e IH f];
    intros t lv Hw Ht; try discriminate Hw; cbn [within_object] in Hw;
    cbn [type_of] in Ht.
  - destruct (type_of ds e) as [[th lvh] |] eqn:Hh; [| discriminate Ht ].
    destruct (pointee th) as [d |] eqn:Hp; [| discriminate Ht ].
    injection Ht as <- _. exact (handle_pointee_const e th d lvh Hw Hh Hp).
  - destruct (type_of ds e) as [[th lvh] |] eqn:Hh; [| discriminate Ht ].
    destruct (pointee th) as [d |] eqn:Hp; [| discriminate Ht ].
    destruct (complete ds d); [| discriminate Ht ].
    injection Ht as <- _. exact (handle_pointee_const e th d lvh Hw Hh Hp).
  - destruct (type_of ds e) as [[t1 lv1] |]; [| discriminate Ht ].
    destruct (member ds t1 f) as [ft |] eqn:Hm; [| discriminate Ht ].
    injection Ht as <- _.
    exact (member_of_const t1 ft f Hm (IH t1 lv1 Hw eq_refl)).
  - destruct (type_of ds e) as [[th lvh] |] eqn:Hh; [| discriminate Ht ].
    destruct (pointee th) as [d |] eqn:Hp; [| discriminate Ht ].
    destruct (member ds d f) as [ft |] eqn:Hm; [| discriminate Ht ].
    injection Ht as <- _.
    exact (member_of_const d ft f Hm (handle_pointee_const e th d lvh Hw Hh Hp)).
Qed.

Lemma within_object_not_assignable (e : path) :
  within_object e = true -> assignable ds e = false.
Proof.
  intros Hw. unfold assignable.
  destruct (type_of ds e) as [[t lv] |] eqn:Ht; [| reflexivity ].
  rewrite (within_object_const e t lv Hw Ht). now destruct lv.
Qed.

(** With no structure definition in scope the object has no member a
    caller can name. *)
Hypothesis Hsd : struct_definitions ds = [].

Lemma no_member (t : ctype) (f : string) : member ds t f = None.
Proof.
  unfold member. destruct (unqual t); try reflexivity.
  rewrite Hsd. reflexivity.
Qed.

Lemma no_member_access (e : path) (f : string) :
  type_of ds (Member e f) = None /\ type_of ds (Arrow e f) = None.
Proof.
  cbn [type_of]. destruct (type_of ds e) as [[t lv] |]; [| now split ].
  rewrite no_member. destruct (pointee t); [| now split ].
  rewrite no_member. now split.
Qed.

End Handle.

Lemma functions_struct_decls (defs : list (string * list (string * ctype))) :
  functions (struct_decls defs) = [].
Proof. induction defs as [| d defs IH]; [ reflexivity | exact IH ]. Qed.

Lemma typedefs_struct_decls (defs : list (string * list (string * ctype))) :
  typedefs (struct_decls defs) = [].
Proof. induction defs as [| d defs IH]; [ reflexivity | exact IH ]. Qed.

Lemma header_with_structs (cxx : bool)
    (defs : list (string * list (string * ctype))) :
  functions (header_decls cxx ++ struct_decls defs) = [tree_sitter_tui_sig]
  /\ typedefs (header_decls cxx ++ struct_decls defs)
     = [("TSLanguage", TSLanguage_struct)].
Proof.
  unfold functions, typedefs. rewrite !flat_map_app.
  fold (functions (struct_decls defs)). fold (typedefs (struct_decls defs)).
  rewrite functions_struct_decls, typedefs_struct_decls.
  destruct cxx; split; reflexivity.
Qed.

(** ** Sanity checks of the model *)

(** The declaration reader does see bodies, tables and member lists when
    a file has them. *)
Example declarations_sees_definitions :
  declarations
    (tokens "struct P { int x; char *name; }; int tbl = { 1, 2 }; int f(int a) { return a; }")
  = Some [ DStructDef "P" [("x", CNamed "int"); ("name", CPtr (CNamed "char"))];
           DObject (CNamed "int") "tbl";
           DFunDef (CNamed "int") "f" (Some [CNamed "int"]) ].
Proof. vm_compute. reflexivity. Qed.

(** A pointer to a non-const, complete object can be written through. *)
Example assignable_when_mutable :
  match declarations (tokens "struct P { int x; }; struct P *get(void);") with
  | Some ds => assignable ds (Arrow (Call "get") "x")
  | None => false
  end = true.
Proof. vm_compute. reflexivity. Qed.

(** With a definition of [struct TSLanguage] in scope, the object and its
    members stay read-only through the handle, by [->], [*] or [[]],
    while an object that a member points to is as writable as that
    member's type says. *)
Example caller_side_definition :
  let ds := header_decls false
            ++ struct_decls [("TSLanguage",
                 [("version", CNamed "int"); ("p", CPtr (CNamed "int"))])] in
  assignable ds (Arrow (Call "tree_sitter_tui") "version") = false
  /\ assignable ds (Member (Deref (Call "tree_sitter_tui")) "p") = false
  /\ type_of ds (Member (Index (Call "tree_sitter_tui") 0) "version")
     = Some (CConst (CNamed "int"), true)
  /\ assignable ds (Member (Index (Call "tree_sitter_tui") 0) "version")
     = false
  /\ assignable ds (Deref (Arrow (Call "tree_sitter_tui") "p")) = true.
Proof. vm_compute. repeat split. Qed.

(** The pointer keeps its qualifier through objects: [const void *v] and
    then [const int *q] receive it, [*q] is a const lvalue, and
    [int *r] does not receive it. The objects themselves are the
    caller's and can be assigned to. *)
Example through_objects :
  let ds := header_decls false in
  let v := Var (CPtr (CConst CVoid)) (Call "tree_sitter_tui") in
  let q := Var (CPtr (CConst (CNamed "int"))) v in
  type_of ds (Deref q) = Some (CConst (CNamed "int"), true)
  /\ assignable ds (Deref q) = false
  /\ type_of ds (Var (CPtr (CNamed "int")) v) = None
  /\ assignable ds q = true.
Proof. vm_compute. repeat split. Qed.

(** The header without its include guard (lines 1, 2 and 16 dropped)
    repeats its declarations at every inclusion. *)
Example unguarded_repeats :
  let unguarded := firstn 13 (skipn 2 tui_h) in
  match include unguarded (∅, []) with
  | Some u =>
      match include unguarded u with
      | Some (_, toks) => option_map typedefs (declarations toks)
      | None => None
      end
  | None => None
  end
  = Some [("TSLanguage", TSLanguage_struct); ("TSLanguage", TSLanguage_struct)].
Proof. vm_compute. reflexivity. Qed.

Example translate_c : translate 1 ∅ = Some (header_decls false).
Proof. vm_compute. reflexivity. Qed.

Example translate_cxx : translate 1 {[ cplusplus ]} = Some (header_decls true).
Proof. vm_compute. reflexivity. Qed.

(** ** The claims about the header *)

(** C1: in every translation unit that includes [tui.h] with the guard
    macro not yet defined, the header contributes exactly one function,
    [tree_sitter_tui], with the parameter list [(void)] and the return
    type pointer to (const) [TSLanguage]; [TSLanguage] abbreviates
    [struct TSLanguage], which is declared and never given members, so
    the type stays incomplete; there is no function body, no object (no
    table of rules or states) and no structure definition. The only other
    declarations are the [extern "C"] braces of a C++ unit. *)
Theorem tui_h_declares_only_tree_sitter_tui (ms : gset string) :
  TREE_SITTER_TUI_H_ ∉ ms ->
  exists ds,
    translate 1 ms = Some ds
    /\ ds = header_decls (bool_decide (cplusplus ∈ ms))
    /\ functions ds = [tree_sitter_tui_sig]
    /\ typedefs ds = [("TSLanguage", CStruct "TSLanguage")]
    /\ complete ds (resolve (typedef_env ds) (CNamed "TSLanguage")) = false
    /\ struct_definitions ds = []
    /\ function_bodies ds = []
    /\ objects ds = [].
Proof.
  intros Hg. eexists. split; [ exact (translate_fresh 0 ms Hg) |].
  destruct (bool_decide (cplusplus ∈ ms)); cbn; repeat split; reflexivity.
Qed.

Lemma tui_h_declares_only_tree_sitter_tui_witness :
  let ms : gset string := ∅ in
  (TREE_SITTER_TUI_H_ ∉ ms)
  /\ (exists ds,
        translate 1 ms = Some ds
        /\ ds = header_decls (bool_decide (cplusplus ∈ ms))
        /\ functions ds = [tree_sitter_tui_sig]
        /\ typedefs ds = [("TSLanguage", CStruct "TSLanguage")]
        /\ complete ds (resolve (typedef_env ds) (CNamed "TSLanguage")) = false
        /\ struct_definitions ds = []
        /\ function_bodies ds = []
        /\ objects ds = []).
Proof.
  intros ms. split.
  - apply not_elem_of_empty.
  - apply (tui_h_declares_only_tree_sitter_tui ms). apply not_elem_of_empty.
Defined.

(** C9, as the code has it: [tree_sitter_tui] is declared to return a
    pointer to a const-qualified [TSLanguage]. With the header's
    declarations the pointed-to object has no member a caller can name,
    and no lvalue that designates it is modifiable, where such an lvalue
    is formed from the call's result by [*], [[]], [->] and [.], directly
    or after the pointer went through objects by initialisation or
    assignment, with no cast. In a C unit the same holds whatever
    structure definitions the caller has in scope besides: the object
    and its members are const-qualified. Objects that a member points to
    are not covered. *)
Theorem tree_sitter_tui_handle_is_read_only (ms : gset string) :
  TREE_SITTER_TUI_H_ ∉ ms ->
  exists ds,
    translate 1 ms = Some ds
    /\ functions ds
       = [("tree_sitter_tui", CPtr (CConst (CNamed "TSLanguage")), Some [])]
    /\ type_of ds (Call "tree_sitter_tui")
       = Some (CPtr (CConst (CStruct "TSLanguage")), false)
    /\ type_of ds (Deref (Call "tree_sitter_tui"))
       = Some (CConst (CStruct "TSLanguage"), true)
    /\ (forall (e : path) (f : string),
          type_of ds (Member e f) = None /\ type_of ds (Arrow e f) = None)
    /\ (forall e : path, within_object e = true -> assignable ds e = false)
    /\ (cplusplus ∉ ms ->
        forall (defs : list (string * list (string * ctype))) (e : path),
          within_object e = true ->
          assignable (ds ++ struct_decls defs) e = false).
Proof.
  intros Hg. exists (header_decls (bool_decide (cplusplus ∈ ms))).
  split; [ exact (translate_fresh 0 ms Hg) |].
  generalize (bool_decide (cplusplus ∈ ms)). intros cxx.
  split; [ now destruct cxx |].
  split; [ now destruct cxx |].
  split; [ now destruct cxx |].
  split; [| split ].
  - intros e f. apply no_member_access. now destruct cxx.
  - intros e Hw. apply within_object_not_assignable; [ | | exact Hw ];
      now destruct cxx.
  - intros _ defs e Hw.
    destruct (header_with_structs cxx defs) as [Hfun Htd].
    exact (within_object_not_assignable _ Hfun Htd e Hw).
Qed.

Lemma tree_sitter_tui_handle_is_read_only_witness :
  let ms : gset string := ∅ in
  (TREE_SITTER_TUI_H_ ∉ ms)
  /\ (exists ds,
        translate 1 ms = Some ds
        /\ functions ds
           = [("tree_sitter_tui", CPtr (CConst (CNamed "TSLanguage")), Some [])]
        /\ type_of ds (Call "tree_sitter_tui")
           = Some (CPtr (CConst (CStruct "TSLanguage")), false)
        /\ type_of ds (Deref (Call "tree_sitter_tui"))
           = Some (CConst (CStruct "TSLanguage"), true)
        /\ (forall (e : path) (f : string),
              type_of ds (Member e f) = None /\ type_of ds (Arrow e f) = None)
        /\ (forall e : path, within_object e = true -> assignable ds e = false)
        /\ (cplusplus ∉ ms ->
            forall (defs : list (string * list (string * ctype))) (e : path),
              within_object e = true ->
              assignable (ds ++ struct_decls defs) e = false)).
Proof.
  intros ms. split.
  - apply not_elem_of_empty.
  - apply (tree_sitter_tui_handle_is_read_only ms). apply not_elem_of_empty.
Defined.

(** C9, as stated, fails: a caller can write through the returned
    pointer after a cast. With the header's declarations alone,
    [*(char * )tree_sitter_tui()] is a modifiable lvalue on the object's
    first byte; with a definition of [struct TSLanguage] in scope,
    [((TSLanguage * )tree_sitter_tui())->version] is one on a member. *)
Lemma tree_sitter_tui_cast_is_writable :
  exists ds,
    translate 1 ∅ = Some ds
    /\ type_of ds (Deref (Cast (CPtr (CNamed "char")) (Call "tree_sitter_tui")))
       = Some (CNamed "char", true)
    /\ assignable ds
         (Deref (Cast (CPtr (CNamed "char")) (Call "tree_sitter_tui"))) = true
    /\ assignable
         (ds ++ struct_decls [("TSLanguage", [("version", CNamed "int")])])
         (Arrow (Cast (CPtr (CNamed "TSLanguage")) (Call "tree_sitter_tui"))
                "version") = true.
Proof.
  exists (header_decls false). split; [ vm_compute; reflexivity |].
  repeat split.
Qed.

(** C10: including [tui.h] [n + 1] times in a row leaves the translation
    unit (macros defined, tokens passed on) exactly as including it once
    does, whatever was defined and emitted before. One inclusion always
    succeeds: with [TREE_SITTER_TUI_H_] defined it changes nothing, otherwise
    it defines the macro and passes the declarations on; either way the
    macro is defined afterwards. The unit that consists of these
    inclusions declares the [TSLanguage] typedef and [tree_sitter_tui]
    once (not at all when the macro was defined at the start). *)
Theorem include_guard_idempotent
    (n : nat) (ms : gset string) (out : list token) :
  include_times (S n) (ms, out) = include_times 1 (ms, out)
  /\ include_times 1 (ms, out)
     = Some (if bool_decide (TREE_SITTER_TUI_H_ ∈ ms) then (ms, out)
             else ({[ TREE_SITTER_TUI_H_ ]} ∪ ms,
                   out ++ body (bool_decide (cplusplus ∈ ms))))
  /\ (exists u : unit_state,
        include_times 1 (ms, out) = Some u /\ TREE_SITTER_TUI_H_ ∈ u.1)
  /\ (exists ds,
        translate (S n) ms = Some ds
        /\ typedefs ds
           = (if bool_decide (TREE_SITTER_TUI_H_ ∈ ms) then []
              else [("TSLanguage", CStruct "TSLanguage")])
        /\ functions ds
           = (if bool_decide (TREE_SITTER_TUI_H_ ∈ ms) then []
              else [tree_sitter_tui_sig])).
Proof.
  rewrite !include_times_succ.
  destruct (decide (TREE_SITTER_TUI_H_ ∈ ms)) as [Hg | Hg].
  - rewrite (include_guarded ms out Hg), (translate_guarded (S n) ms Hg),
      (bool_decide_eq_true_2 _ Hg).
    repeat split.
    + exists (ms, out). split; [ reflexivity | exact Hg ].
    + exists []. repeat split.
  - rewrite (include_fresh ms out Hg), (translate_fresh n ms Hg),
      (bool_decide_eq_false_2 _ Hg).
    repeat split.
    + eexists. split; [ reflexivity | apply guard_defined_after ].
    + eexists. split; [ reflexivity |].
      destruct (bool_decide (cplusplus ∈ ms)); split; reflexivity.
Qed.

(** ** Further properties of the header *)

Lemma call_ok_handle (ds : list decl) (fn : string) (args : list ctype) :
  functions ds = [tree_sitter_tui_sig] ->
  call_ok ds fn args
  = String.eqb fn "tree_sitter_tui"
    && match args with [] => true | _ :: _ => false end.
Proof.
  intros Hfun. unfold call_ok, prototype. rewrite Hfun. cbn.
  destruct (String.eqb fn "tree_sitter_tui"); [| reflexivity ].
  destruct args; reflexivity.
Qed.

Lemma assign_handle_const (dst : ctype) :
  assign_ok dst handle_type = true ->
  is_bool (unqual dst) = true
  \/ exists d, pointee dst = Some d /\ is_const d = true.
Proof.
  unfold assign_ok. destruct (pointee dst) as [d |]; cbn.
  - intros [_ Hc]%andb_prop. right. exists d. split; [ reflexivity | exact Hc ].
  - intros Hb. left. exact Hb.
Qed.

(** Empty parentheses instead of [(void)] would let a call pass any
    arguments. *)
Example call_without_prototype :
  match declarations (tokens "const TSLanguage *f();") with
  | Some ds => call_ok ds "f" [CNamed "int"; CPtr CVoid]
  | None => false
  end = true.
Proof. vm_compute. reflexivity. Qed.

(** A pointer to a non-const object converts to a plain [void *]. *)
Example assign_drops_nothing :
  assign_ok (CPtr CVoid) (CPtr (CNamed "int")) = true
  /\ assign_ok (CPtr (CNamed "int")) (CPtr (CConst (CNamed "int"))) = false.
Proof. split; reflexivity. Qed.

(** The prototype before the typedef would use a name not yet declared. *)
Example prototype_needs_typedef :
  well_scoped [] [proto_decl; typedef_decl] = false
  /\ well_scoped [] [proto_decl] = false.
Proof. split; reflexivity. Qed.

(** A block that is not closed, or a [}] with nothing open, has no
    linkage reading. *)
Example linkages_unbalanced :
  linkages [] [DLinkageOpen "C"; proto_decl] = None
  /\ linkages [] [proto_decl; DLinkageClose] = None.
Proof. split; reflexivity. Qed.

(** X1: in a unit that includes [tui.h] with the guard undefined,
    [tree_sitter_tui] is declared inside an [extern "C"] block exactly
    when [__cplusplus] is defined, and at file scope with no linkage
    block at all otherwise; the block is opened and closed by the header
    itself; the typedef and the prototype are the same declarations in
    both languages. *)
Theorem tree_sitter_tui_linkage (ms : gset string) :
  TREE_SITTER_TUI_H_ ∉ ms ->
  exists ds,
    translate 1 ms = Some ds
    /\ linkages [] ds
       = Some [("tree_sitter_tui",
                if bool_decide (cplusplus ∈ ms) then Some "C" else None)]
    /\ linkage_blocks ds
       = (if bool_decide (cplusplus ∈ ms) then ["C"] else [])
    /\ without_linkage ds = [typedef_decl; proto_decl].
Proof.
  intros Hg. eexists. split; [ exact (translate_fresh 0 ms Hg) |].
  destruct (bool_decide (cplusplus ∈ ms)); repeat split.
Qed.

Lemma tree_sitter_tui_linkage_witness :
  let ms : gset string := {[ cplusplus ]} in
  (TREE_SITTER_TUI_H_ ∉ ms)
  /\ (exists ds,
        translate 1 ms = Some ds
        /\ linkages [] ds
           = Some [("tree_sitter_tui",
                    if bool_decide (cplusplus ∈ ms) then Some "C" else None)]
        /\ linkage_blocks ds
           = (if bool_decide (cplusplus ∈ ms) then ["C"] else [])
        /\ without_linkage ds = [typedef_decl; proto_decl]).
Proof.
  intros ms.
  assert (Hg : TREE_SITTER_TUI_H_ ∉ ms).
  { intros Hin%elem_of_singleton. discriminate Hin. }
  split; [ exact Hg | exact (tree_sitter_tui_linkage ms Hg) ].
Defined.

(** X2: with the header's declarations, a call is accepted exactly when
    it calls [tree_sitter_tui] with no argument: the [(void)] prototype
    rejects every argument list that is not empty, and no other function
    is declared. *)
Theorem tree_sitter_tui_call (ms : gset string) :
  TREE_SITTER_TUI_H_ ∉ ms ->
  exists ds,
    translate 1 ms = Some ds
    /\ forall (fn : string) (args : list ctype),
         call_ok ds fn args = true <-> fn = "tree_sitter_tui" /\ args = [].
Proof.
  intros Hg. eexists. split; [ exact (translate_fresh 0 ms Hg) |].
  intros fn args. rewrite call_ok_handle by now destruct (bool_decide _).
  rewrite andb_true_iff, String.eqb_eq.
  destruct args; split; intros [H1 H2]; split; congruence.
Qed.

Lemma tree_sitter_tui_call_witness :
  let ms : gset string := ∅ in
  (TREE_SITTER_TUI_H_ ∉ ms)
  /\ (exists ds,
        translate 1 ms = Some ds
        /\ forall (fn : string) (args : list ctype),
             call_ok ds fn args = true
             <-> fn = "tree_sitter_tui" /\ args = []).
Proof.
  intros ms. split.
  - apply not_elem_of_empty.
  - apply (tree_sitter_tui_call ms). apply not_elem_of_empty.
Defined.

(** X3: the result of [tree_sitter_tui] can be stored, without a cast,
    only in a pointer to a const-qualified type (or be converted to a
    boolean): [const TSLanguage *], [const struct TSLanguage *] and
    [const void *] accept it, [TSLanguage *] and [void *] do not. *)
Theorem tree_sitter_tui_result_stays_const (ms : gset string) :
  TREE_SITTER_TUI_H_ ∉ ms ->
  exists ds ht,
    translate 1 ms = Some ds
    /\ return_type ds "tree_sitter_tui" = Some ht
    /\ (forall dst : ctype,
          assign_ok dst ht = true ->
          is_bool (unqual dst) = true
          \/ exists d, pointee dst = Some d /\ is_const d = true)
    /\ assign_ok
         (resolve (typedef_env ds) (CPtr (CConst (CNamed "TSLanguage")))) ht
       = true
    /\ assign_ok (CPtr (CConst (CStruct "TSLanguage"))) ht = true
    /\ assign_ok (CPtr (CConst CVoid)) ht = true
    /\ assign_ok
         (resolve (typedef_env ds) (CPtr (CNamed "TSLanguage"))) ht = false
    /\ assign_ok (CPtr CVoid) ht = false.
Proof.
  intros Hg. exists (header_decls (bool_decide (cplusplus ∈ ms))), handle_type.
  split; [ exact (translate_fresh 0 ms Hg) |].
  split; [ now destruct (bool_decide _) |].
  split; [ exact assign_handle_const |].
  destruct (bool_decide _); repeat split.
Qed.

Lemma tree_sitter_tui_result_stays_const_witness :
  let ms : gset string := ∅ in
  (TREE_SITTER_TUI_H_ ∉ ms)
  /\ (exists ds ht,
        translate 1 ms = Some ds
        /\ return_type ds "tree_sitter_tui" = Some ht
        /\ (forall dst : ctype,
              assign_ok dst ht = true ->
              is_bool (unqual dst) = true
              \/ exists d, pointee dst = Some d /\ is_const d = true)
        /\ assign_ok
             (resolve (typedef_env ds) (CPtr (CConst (CNamed "TSLanguage"))))
             ht = true
        /\ assign_ok (CPtr (CConst (CStruct "TSLanguage"))) ht = true
        /\ assign_ok (CPtr (CConst CVoid)) ht = true
        /\ assign_ok
             (resolve (typedef_env ds) (CPtr (CNamed "TSLanguage"))) ht
           = false
        /\ assign_ok (CPtr CVoid) ht = false).
Proof.
  intros ms. split.
  - apply not_elem_of_empty.
  - apply (tree_sitter_tui_result_stays_const ms). apply not_elem_of_empty.
Defined.

(** X4: the header is self-contained: whatever type names are known
    before it (none included), every type name its declarations use was
    introduced by a typedef earlier in the header itself. *)
Theorem tui_h_self_contained (ms : gset string) :
  TREE_SITTER_TUI_H_ ∉ ms ->
  exists ds,
    translate 1 ms = Some ds
    /\ forall known : list string, well_scoped known ds = true.
Proof.
  intros Hg. eexists. split; [ exact (translate_fresh 0 ms Hg) |].
  intros known. destruct (bool_decide _); reflexivity.
Qed.

Lemma tui_h_self_contained_witness :
  let ms : gset string := {[ cplusplus ]} in
  (TREE_SITTER_TUI_H_ ∉ ms)
  /\ (exists ds,
        translate 1 ms = Some ds
        /\ forall known : list string, well_scoped known ds = true).
Proof.
  intros ms.
  assert (Hg : TREE_SITTER_TUI_H_ ∉ ms).
  { intros Hin%elem_of_singleton. discriminate Hin. }
  split; [ exact Hg | exact (tui_h_self_contained ms Hg) ].
Defined.

(** X5: any number of inclusions of [tui.h] (none included) succeeds,
    keeps every macro that was defined, defines no macro other than
    [TREE_SITTER_TUI_H_], keeps the tokens passed on before it as a
    prefix of the output, and leaves [__cplusplus] as it found it. *)
Theorem include_footprint (n : nat) (ms : gset string) (out : list token) :
  exists (ms' : gset string) (out' : list token),
    include_times n (ms, out) = Some (ms', out')
    /\ ms ⊆ ms'
    /\ ms' ⊆ {[ TREE_SITTER_TUI_H_ ]} ∪ ms
    /\ out `prefix_of` out'
    /\ (cplusplus ∈ ms' <-> cplusplus ∈ ms).
Proof.
  destruct n as [| n].
  - exists ms, out. cbn [include_times]. repeat split; try set_solver.
  - rewrite include_times_succ.
    destruct (decide (TREE_SITTER_TUI_H_ ∈ ms)) as [Hg | Hg].
    + rewrite (include_guarded ms out Hg). exists ms, out.
      repeat split; try set_solver.
    + rewrite (include_fresh ms out Hg). do 2 eexists.
      split; [ reflexivity |].
      split; [ set_solver |]. split; [ set_solver |].
      split; [ now apply prefix_app_r |].
      rewrite elem_of_union, elem_of_singleton.
      split; [ intros [Heq | Hin]; [ discriminate Heq | exact Hin ] | now right ].
Qed.
